(** * go-recaptcha: the verifier and its error translator

    A shallow embedding of [recaptcha.go] and the properties of its three
    operations: [check] (one round trip to the verification endpoint),
    [Confirm] / [ConfirmV3] (the public entry points) and
    [convertErrorCodes] (the translation of provider error codes).

    Conventions.
    - A Go [string] is a [string]; a [[]string] is the [list string] held by
      its backing array.  [convertErrorCodes] writes through the slice it is
      given, so it is modelled as returning the new contents of the caller's
      backing array next to its result.
    - A Go [error] is [option error]: [None] is [nil].
    - [map[string]string] and [url.Values] are finite maps ([gmap]).
    - [float64] is the primitive binary64 float.
    - The packages [net/http], [io/ioutil] and [encoding/json] are not part
      of the repository: they are the fields of an environment [Env]. *)

From Stdlib Require Import ZArith String Ascii List.
From Stdlib Require Import Floats.PrimFloat.
From stdpp Require Import gmap strings list fin_maps.

(** ** Go errors *)

(** The error values the program can see: the ones made by the packages it
    calls, and the two shapes [fmt.Errorf] builds (with and without [%w]). *)
Inductive error : Type :=
| foreignError (msg : string)
| errorString (s : string)
| wrapError (msg : string) (err : error).

(** The [Error()] method. *)
Definition Error (e : error) : string :=
  match e with
  | foreignError msg => msg
  | errorString s => s
  | wrapError msg _ => msg
  end.

(** [errors.Unwrap]. *)
Definition Unwrap (e : error) : option error :=
  match e with
  | wrapError _ err => Some err
  | _ => None
  end.

(** ** Formatting ([fmt]) *)

Module fmt.

(** The verb [%v] applied to a [[]string]: the elements separated by one
    space, within square brackets. *)
Definition v_strings (l : list string) : string :=
  "[" +:+ String.concat " " l +:+ "]".

(** [fmt.Sprintf("unknown error code %s", e)] *)
Definition Sprintf_unknown_error_code (e : string) : string :=
  "unknown error code " +:+ e.

(** [fmt.Errorf("reCAPTCHA request errors: %v", errorCodes)] *)
Definition Errorf_request_errors (errorCodes : list string) : error :=
  errorString ("reCAPTCHA request errors: " +:+ v_strings errorCodes).

(** [fmt.Errorf(prefix ++ "%w", err)] *)
Definition Errorf_w (prefix : string) (err : error) : error :=
  wrapError (prefix +:+ Error err) err.

End fmt.

(** ** Data model *)

(** [time.Time], as nanoseconds since the zero time. *)
Definition time_Time : Type := Z.

Record recaptchaResponse : Type := {
  Success : bool;
  Score : float;
  Action : string;
  ChallengeTS : time_Time;
  Hostname : string;
  ErrorCodes : list string
}.

(** [var r recaptchaResponse] *)
Definition zero_recaptchaResponse : recaptchaResponse :=
  {| Success := false; Score := 0%float; Action := ""; ChallengeTS := 0%Z;
     Hostname := ""; ErrorCodes := [] |}.

(** The [float64] nearest to 0.9, which is what the decimal 0.9 denotes in
    Go and in a decoded JSON number. *)
Definition float64_0_9 : float := 0x1.ccccccccccccdp-1%float.

Definition recaptchaServerName : string :=
  "https://www.google.com/recaptcha/api/siteverify".

(** Used to convert short text to actual error text. *)
Definition responseErrors : gmap string string :=
  <["missing-input-secret" := "the secret parameter is missing"]>
  (<["invalid-input-secret" := "the secret parameter is invalid or malformed"]>
  (<["missing-input-response" := "the response parameter is missing"]>
  (<["invalid-input-response" := "the response parameter is invalid or malformed"]>
  (<["bad-request" := "the request is invalid or malformed"]>
  (<["timeout-or-duplicate" :=
       "the response is no longer valid - too old or used previously"]> ∅))))).

(** ** The error translator *)

(** The body of the loop of [convertErrorCodes] at index [i], where [e] is
    the element the [range] clause read there. *)
Definition convert_at (i : nat) (e : string) (errorCodes : list string)
  : list string :=
  match responseErrors !! e with
  | Some code => <[i := code]> errorCodes
  | None => <[i := fmt.Sprintf_unknown_error_code e]> errorCodes
  end.

(** [for i, e := range errorCodes { ... }]: the length is taken once, on
    entry ([n] iterations remain, the next index is [i]); [e] is read from
    the backing array when its iteration starts.  The index is always in
    range (see [convert_loop_map]), so the [None] branch is never taken. *)
Fixpoint convert_loop (n i : nat) (errorCodes : list string) : list string :=
  match n with
  | O => errorCodes
  | S n' =>
      match errorCodes !! i with
      | Some e => convert_loop n' (S i) (convert_at i e errorCodes)
      | None => errorCodes
      end
  end.

(** turn any error codes into actual language describing the problem.

    The first component is the contents of the caller's backing array
    after the call, the second the returned error. *)
Definition convertErrorCodes (errorCodes : list string)
  : list string * option error :=
  if Nat.eqb (length errorCodes) 0 then (errorCodes, None)
  else
    let errorCodes' := convert_loop (length errorCodes) 0 errorCodes in
    (errorCodes', Some (fmt.Errorf_request_errors errorCodes')).

(** ** The environment: the packages the verifier calls *)

(** [url.Values] *)
Abbreviation url_Values := (gmap string (list string)).

(** One [http.PostForm] call: the URL and the form. *)
Definition request : Type := string * url_Values.

(** [resp.Body]: what reading it to the end gives ([ioutil.ReadAll]). *)
Record io_ReadCloser : Type := {
  body_data : list Byte.byte;
  body_err : option error
}.

Record http_Response : Type := { Body : io_ReadCloser }.

Record Env : Type := {
  (** [http.PostForm], which may depend on the requests sent before *)
  http_PostForm : list request -> string -> url_Values -> http_Response + error;
  (** [json.Unmarshal(body, &r)]: the new value of [r] and the error *)
  json_Unmarshal : list Byte.byte -> recaptchaResponse ->
                   recaptchaResponse * option error
}.

Definition ioutil_ReadAll (b : io_ReadCloser) : list Byte.byte * option error :=
  (body_data b, body_err b).

(** ** Program state *)

Record State : Type := {
  (** Your site's private key. *)
  recaptchaPrivateKey : string;
  (** the requests sent so far, oldest first *)
  posted : list request
}.


(** ** The verifier *)

Section Verifier.

Variable env : Env.

Definition check_form (remoteip response : string) (st : State) : url_Values :=
  <["secret" := [recaptchaPrivateKey st]]>
  (<["remoteip" := [remoteip]]>
  (<["response" := [response]]> ∅)).

(** check will construct the request to the verification API, send it,
    and return the result.  The deferred [resp.Body.Close()] changes no
    value the program reads afterwards and is left out. *)
Definition check (remoteip response : string) (st : State)
  : recaptchaResponse * option error * State :=
  let r := zero_recaptchaResponse in
  let form := check_form remoteip response st in
  let st' := {| recaptchaPrivateKey := recaptchaPrivateKey st;
                posted := posted st ++ [(recaptchaServerName, form)] |} in
  match http_PostForm env (posted st) recaptchaServerName form with
  | inr err => (r, Some (fmt.Errorf_w "post error: " err), st')
  | inl resp =>
      match ioutil_ReadAll (Body resp) with
      | (_, Some err) =>
          (r, Some (fmt.Errorf_w "read error: could not read body: " err), st')
      | (body, None) =>
          match json_Unmarshal env body r with
          | (r', Some err) =>
              (r', Some (fmt.Errorf_w "read error: JSON unmarshal error: " err), st')
          | (r', None) => (r', None, st')
          end
      end
  end.

(** Confirm is the public interface function that validates a V2
    reCAPTCHA token. *)
Definition Confirm (remoteip response : string) (st : State)
  : bool * option error * State :=
  match check remoteip response st with
  | (_, Some err, st') => (false, Some err, st')
  | (resp, None, st') =>
      (Success resp, snd (convertErrorCodes (ErrorCodes resp)), st')
  end.

(** ConfirmV3 will return the authenticity, score, and action of a V3
    captcha. *)
Definition ConfirmV3 (remoteip response : string) (st : State)
  : bool * float * string * option error * State :=
  match check remoteip response st with
  | (_, Some err, st') => (false, 0%float, "", Some err, st')
  | (resp, None, st') =>
      (Success resp, Score resp, Action resp,
       snd (convertErrorCodes (ErrorCodes resp)), st')
  end.

End Verifier.

(** ** Vocabulary of the properties *)

(** The translation of one code: its descriptive text when the table knows
    it, the synthetic message otherwise. *)
Definition translate (e : string) : string :=
  match responseErrors !! e with
  | Some code => code
  | None => fmt.Sprintf_unknown_error_code e
  end.

(** [sub] occurs in [s]. *)
Definition contains (sub s : string) : Prop :=
  exists pre post, s = pre +:+ sub +:+ post.

(** The [texts] occur in [s] one after the other, without overlap. *)
Fixpoint occur_in_order (texts : list string) (s : string) : Prop :=
  match texts with
  | [] => True
  | t :: ts => exists pre post, s = pre +:+ t +:+ post /\ occur_in_order ts post
  end.

(** ** Failures of the round trip *)

(** The ways one round trip fails, each with the prefix [check] puts
    before the cause: the POST fails, the body cannot be read, or the body
    is not the expected JSON. *)
Inductive round_trip_fails (env : Env) (remoteip response : string) (st : State)
  : string -> error -> Prop :=
| post_fails (cause : error) :
    http_PostForm env (posted st) recaptchaServerName
      (check_form remoteip response st) = inr cause ->
    round_trip_fails env remoteip response st "post error: " cause
| read_fails (resp : http_Response) (cause : error) :
    http_PostForm env (posted st) recaptchaServerName
      (check_form remoteip response st) = inl resp ->
    body_err (Body resp) = Some cause ->
    round_trip_fails env remoteip response st
      "read error: could not read body: " cause
| decode_fails (resp : http_Response) (r' : recaptchaResponse) (cause : error) :
    http_PostForm env (posted st) recaptchaServerName
      (check_form remoteip response st) = inl resp ->
    body_err (Body resp) = None ->
    json_Unmarshal env (body_data (Body resp)) zero_recaptchaResponse =
      (r', Some cause) ->
    round_trip_fails env remoteip response st
      "read error: JSON unmarshal error: " cause.

(** The state after one call of [check]: one more request was sent. *)
Definition after_check (remoteip response : string) (st : State) : State :=
  {| recaptchaPrivateKey := recaptchaPrivateKey st;
     posted := posted st ++
               [(recaptchaServerName, check_form remoteip response st)] |}.

(** ** Environments and states used in examples *)

Module Example.

(** A provider that answers every request with [body], which decodes
    to [decoded]. *)
Definition answering (body : string) (decoded : recaptchaResponse) : Env :=
  {| http_PostForm := fun _ _ _ =>
       inl {| Body := {| body_data := list_byte_of_string body;
                         body_err := None |} |};
     json_Unmarshal := fun _ _ => (decoded, None) |}.

(** A network on which every POST fails with [cause]. *)
Definition refusing (cause : error) : Env :=
  {| http_PostForm := fun _ _ _ => inr cause;
     json_Unmarshal := fun _ r => (r, None) |}.

Definition connection_refused : error :=
  foreignError "dial tcp: connect: connection refused".

Definition st0 : State :=
  {| recaptchaPrivateKey := "6Lc-private-key"; posted := [] |}.

Definition remoteip : string := "203.0.113.7".
Definition token : string := "03AGdBq25".

(** [s] between double quotes *)
Definition quoted (s : string) : string :=
  String "034" (s +:+ String "034" EmptyString).

Definition body_true_with_code : string :=
  "{" +:+ quoted "success" +:+ ": true, " +:+ quoted "error-codes" +:+
  ": [" +:+ quoted "timeout-or-duplicate" +:+ "]}".

Definition body_true : string :=
  "{" +:+ quoted "success" +:+ ": true, " +:+ quoted "error-codes" +:+ ": []}".

Definition body_login : string :=
  "{" +:+ quoted "success" +:+ ": true, " +:+ quoted "score" +:+ ": 0.9, " +:+
  quoted "action" +:+ ": " +:+ quoted "login" +:+ ", " +:+
  quoted "error-codes" +:+ ": []}".

(** success with a stale token: [success] is true and a code is reported *)
Definition resp_true_with_code : recaptchaResponse :=
  {| Success := true; Score := 0%float; Action := ""; ChallengeTS := 0%Z;
     Hostname := "example.org"; ErrorCodes := ["timeout-or-duplicate"] |}.

Definition resp_true : recaptchaResponse :=
  {| Success := true; Score := 0%float; Action := ""; ChallengeTS := 0%Z;
     Hostname := ""; ErrorCodes := [] |}.

Definition resp_login : recaptchaResponse :=
  {| Success := true; Score := float64_0_9; Action := "login";
     ChallengeTS := 0%Z; Hostname := ""; ErrorCodes := [] |}.

Definition provider_true_with_code : Env :=
  answering body_true_with_code resp_true_with_code.
Definition provider_true : Env := answering body_true resp_true.
Definition provider_login : Env := answering body_login resp_login.
Definition network_down : Env := refusing connection_refused.

(** the state after one verification from [st0] *)
Definition st1 : State := after_check remoteip token st0.

End Example.

Import Example.

(** ** Strings *)

Lemma app_cons (a : ascii) (s t : string) :
  String a s +:+ t = String a (s +:+ t).
Proof. reflexivity. Qed.

Lemma app_empty_l (s : string) : "" +:+ s = s.
Proof. reflexivity. Qed.

Lemma app_assoc_s (s t u : string) : (s +:+ t) +:+ u = s +:+ t +:+ u.
Proof.
  induction s as [|a s IH]; [reflexivity|].
  rewrite !app_cons, IH. reflexivity.
Qed.

Lemma length_app_s (s t : string) :
  String.length (s +:+ t) = String.length s + String.length t.
Proof.
  induction s as [|a s IH]; [reflexivity|].
  rewrite app_cons. simpl. rewrite IH. reflexivity.
Qed.

Lemma concat_cons2 (sep x y : string) (l : list string) :
  String.concat sep (x :: y :: l) = x +:+ sep +:+ String.concat sep (y :: l).
Proof. reflexivity. Qed.

Lemma contains_refl (s : string) : contains s s.
Proof.
  exists "", "". rewrite app_empty_l.
  induction s as [|a s IH]; [reflexivity|].
  rewrite app_cons. f_equal. exact IH.
Qed.

Lemma contains_app_l (sub p s : string) : contains sub s -> contains sub (p +:+ s).
Proof.
  intros (pre & post & ->). exists (p +:+ pre), post.
  rewrite app_assoc_s. reflexivity.
Qed.

Lemma contains_app_r (sub s q : string) : contains sub s -> contains sub (s +:+ q).
Proof.
  intros (pre & post & ->). exists pre, (post +:+ q).
  rewrite !app_assoc_s. reflexivity.
Qed.

Lemma contains_concat (sep t : string) (l : list string) :
  t ∈ l -> contains t (String.concat sep l).
Proof.
  induction l as [|x [|y l] IH]; intros Hin.
  - inversion Hin.
  - apply list_elem_of_singleton in Hin as ->. apply contains_refl.
  - rewrite concat_cons2. apply elem_of_cons in Hin as [->|Hin].
    + apply contains_app_r, contains_refl.
    + apply contains_app_l, contains_app_l, IH, Hin.
Qed.

Lemma occur_in_order_app_l (texts : list string) (p s : string) :
  occur_in_order texts s -> occur_in_order texts (p +:+ s).
Proof.
  destruct texts as [|t ts]; [trivial|].
  intros (pre & post & -> & H). exists (p +:+ pre), post.
  split; [|exact H]. rewrite app_assoc_s. reflexivity.
Qed.

Lemma occur_in_order_concat (sep : string) (texts : list string) (q : string) :
  occur_in_order texts (String.concat sep texts +:+ q).
Proof.
  induction texts as [|x [|y l] IH].
  - exact I.
  - exists "", q. split; [reflexivity|exact I].
  - rewrite concat_cons2. exists "", (sep +:+ String.concat sep (y :: l) +:+ q).
    split.
    + rewrite app_empty_l, !app_assoc_s. reflexivity.
    + apply occur_in_order_app_l, IH.
Qed.

Lemma length_concat_fmap_unknown (l : list string) :
  l <> [] ->
  String.length (String.concat " " l) <
  String.length (String.concat " " (fmt.Sprintf_unknown_error_code <$> l)).
Proof.
  induction l as [|x [|y l] IH]; intros Hne; [congruence| |].
  - simpl. unfold fmt.Sprintf_unknown_error_code.
    rewrite length_app_s. simpl. lia.
  - change (fmt.Sprintf_unknown_error_code <$> x :: y :: l)
      with (fmt.Sprintf_unknown_error_code x ::
            fmt.Sprintf_unknown_error_code y ::
            (fmt.Sprintf_unknown_error_code <$> l)).
    rewrite !concat_cons2, !length_app_s.
    assert (Hy : y :: l <> []) by congruence.
    specialize (IH Hy).
    change (fmt.Sprintf_unknown_error_code <$> y :: l)
      with (fmt.Sprintf_unknown_error_code y ::
            (fmt.Sprintf_unknown_error_code <$> l)) in IH.
    unfold fmt.Sprintf_unknown_error_code at 1.
    rewrite length_app_s. lia.
Qed.

(** ** The table *)

(** The table, read as a chain of comparisons. *)
Lemma responseErrors_lookup (e : string) :
  responseErrors !! e =
    if decide ("missing-input-secret" = e)
    then Some "the secret parameter is missing"
    else if decide ("invalid-input-secret" = e)
    then Some "the secret parameter is invalid or malformed"
    else if decide ("missing-input-response" = e)
    then Some "the response parameter is missing"
    else if decide ("invalid-input-response" = e)
    then Some "the response parameter is invalid or malformed"
    else if decide ("bad-request" = e)
    then Some "the request is invalid or malformed"
    else if decide ("timeout-or-duplicate" = e)
    then Some "the response is no longer valid - too old or used previously"
    else None.
Proof.
  unfold responseErrors. rewrite !lookup_insert, lookup_empty. reflexivity.
Qed.

Ltac table_cases H :=
  rewrite responseErrors_lookup in H;
  repeat (case_decide; [subst; injection H as <-|]); [..|discriminate H].

(** No descriptive text is itself a code of the table. *)
Lemma text_not_key (e code : string) :
  responseErrors !! e = Some code -> responseErrors !! code = None.
Proof. intros H. table_cases H; vm_compute; reflexivity. Qed.

(** No descriptive text is the code it describes. *)
Lemma text_not_code (e code : string) :
  responseErrors !! e = Some code -> code <> e.
Proof. intros H. table_cases H; discriminate. Qed.

(** No synthetic message is a code of the table. *)
Lemma unknown_not_key (e : string) :
  responseErrors !! fmt.Sprintf_unknown_error_code e = None.
Proof.
  rewrite responseErrors_lookup.
  change (fmt.Sprintf_unknown_error_code e)
    with (String "u" ("nknown error code " +:+ e)).
  repeat (case_decide; [discriminate|]). reflexivity.
Qed.

Lemma unknown_not_code (e : string) : fmt.Sprintf_unknown_error_code e <> e.
Proof.
  intros H. apply (f_equal String.length) in H.
  unfold fmt.Sprintf_unknown_error_code in H. rewrite length_app_s in H.
  simpl in H. lia.
Qed.

Lemma translate_not_key (e : string) : responseErrors !! translate e = None.
Proof.
  unfold translate. destruct (responseErrors !! e) as [code|] eqn:He.
  - eapply text_not_key, He.
  - apply unknown_not_key.
Qed.

Lemma translate_neq (e : string) : translate e <> e.
Proof.
  unfold translate. destruct (responseErrors !! e) as [code|] eqn:He.
  - eapply text_not_code, He.
  - apply unknown_not_code.
Qed.

Lemma translate_translate (e : string) :
  translate (translate e) = fmt.Sprintf_unknown_error_code (translate e).
Proof. unfold translate at 1. rewrite translate_not_key. reflexivity. Qed.

(** ** The loop *)

Lemma convert_at_translate (i : nat) (e : string) (l : list string) :
  convert_at i e l = <[i := translate e]> l.
Proof. unfold convert_at, translate. destruct (responseErrors !! e); reflexivity. Qed.

(** With the first [length done] elements converted and [rest] to go, the
    loop converts [rest] element by element and leaves [done] alone. *)
Lemma convert_loop_app (rest done : list string) :
  convert_loop (length rest) (length done) (done ++ rest) =
  done ++ (translate <$> rest).
Proof.
  revert done. induction rest as [|e rest IH]; intros done; [reflexivity|].
  simpl convert_loop.
  rewrite list_lookup_middle by reflexivity.
  rewrite convert_at_translate.
  rewrite insert_app_r_alt, Nat.sub_diag by reflexivity. simpl.
  rewrite (cons_middle (translate e)), app_assoc.
  replace (S (length done)) with (length (done ++ [translate e]))
    by (rewrite length_app; simpl; lia).
  rewrite IH, <- app_assoc. reflexivity.
Qed.

Lemma convert_loop_map (l : list string) :
  convert_loop (length l) 0 l = translate <$> l.
Proof. exact (convert_loop_app l []). Qed.

Lemma convertErrorCodes_nil : convertErrorCodes [] = ([], None).
Proof. reflexivity. Qed.

Lemma convertErrorCodes_cons (e : string) (l : list string) :
  convertErrorCodes (e :: l) =
  (translate <$> e :: l, Some (fmt.Errorf_request_errors (translate <$> e :: l))).
Proof.
  unfold convertErrorCodes.
  change (length (e :: l) =? 0)%nat with false. cbv iota zeta.
  rewrite convert_loop_map. reflexivity.
Qed.

Lemma convertErrorCodes_nonempty (l : list string) :
  l <> [] ->
  convertErrorCodes l =
  (translate <$> l, Some (fmt.Errorf_request_errors (translate <$> l))).
Proof. destruct l; [congruence|]. intros _. apply convertErrorCodes_cons. Qed.

Lemma fmap_translate_known (codes : list string) :
  Forall (fun c => is_Some (responseErrors !! c)) codes ->
  Forall2 (fun c t => responseErrors !! c = Some t) codes (translate <$> codes).
Proof.
  induction 1 as [|c codes [t Hc] _ IH]; [constructor|].
  rewrite fmap_cons. constructor; [|exact IH].
  unfold translate. rewrite Hc. reflexivity.
Qed.

Lemma request_errors_message (l : list string) :
  Error (fmt.Errorf_request_errors l) =
  "reCAPTCHA request errors: [" +:+ String.concat " " l +:+ "]".
Proof. reflexivity. Qed.

Lemma request_errors_length (l l' : list string) :
  Some (fmt.Errorf_request_errors l) = Some (fmt.Errorf_request_errors l') ->
  String.length (String.concat " " l) = String.length (String.concat " " l').
Proof.
  intros H.
  assert (Hmsg : Error (fmt.Errorf_request_errors l) =
                 Error (fmt.Errorf_request_errors l')) by congruence.
  rewrite !request_errors_message in Hmsg.
  apply (f_equal String.length) in Hmsg.
  rewrite !length_app_s in Hmsg. lia.
Qed.

(** ** Properties of the error translator *)

(** C6. [convertErrorCodes] returns [nil] exactly when the list of codes is
    empty; it is given the list alone, so no other field of the response
    can change that. *)
Theorem convertErrorCodes_nil_iff_empty (codes : list string) :
  snd (convertErrorCodes codes) = None <-> codes = [].
Proof.
  destruct codes as [|e l].
  - rewrite convertErrorCodes_nil. split; reflexivity.
  - rewrite convertErrorCodes_cons. split; discriminate.
Qed.

(** C2, as the spec states it, fails: after the call on the one-element
    list ["bad-request"] the caller's list holds the descriptive text, not
    the code. *)
Lemma convertErrorCodes_mutates_bad_request :
  fst (convertErrorCodes ["bad-request"]) <> ["bad-request"].
Proof. vm_compute. discriminate. Qed.

(** C2, amended. [convertErrorCodes] overwrites the caller's list in place:
    after the call the list has the same length and holds, at each index,
    the translation of the code that was there (so the original order is
    kept); it still holds the original codes exactly when it is empty. *)
Theorem convertErrorCodes_overwrites_argument (codes : list string) :
  fst (convertErrorCodes codes) = translate <$> codes /\
  length (fst (convertErrorCodes codes)) = length codes /\
  (forall i : nat, fst (convertErrorCodes codes) !! i = translate <$> codes !! i) /\
  (fst (convertErrorCodes codes) = codes <-> codes = []).
Proof.
  assert (Hfst : fst (convertErrorCodes codes) = translate <$> codes).
  { destruct codes as [|e l]; [reflexivity|].
    rewrite convertErrorCodes_cons. reflexivity. }
  rewrite Hfst. split; [reflexivity|]. split; [apply length_fmap|].
  split; [intros i; apply list_lookup_fmap|].
  split; [|intros ->; reflexivity].
  destruct codes as [|e l]; [reflexivity|].
  rewrite fmap_cons. intros H. injection H as H _.
  destruct (translate_neq e H).
Qed.

(** C3. For a non-empty list of codes that are all keys of the table, the
    message of the returned error is the fixed prefix followed by the
    bracketed, space-separated descriptive texts of the codes; each text
    occurs in it, and the texts occur in the order of their codes. *)
Theorem convertErrorCodes_known_codes (codes : list string) :
  codes <> [] ->
  Forall (fun c => is_Some (responseErrors !! c)) codes ->
  exists (texts : list string) (err : error),
    Forall2 (fun c t => responseErrors !! c = Some t) codes texts /\
    snd (convertErrorCodes codes) = Some err /\
    Error err = "reCAPTCHA request errors: [" +:+ String.concat " " texts +:+ "]" /\
    Forall (fun t => contains t (Error err)) texts /\
    occur_in_order texts (Error err).
Proof.
  intros Hne Hknown.
  exists (translate <$> codes), (fmt.Errorf_request_errors (translate <$> codes)).
  rewrite convertErrorCodes_nonempty by exact Hne.
  rewrite request_errors_message.
  split; [apply fmap_translate_known, Hknown|].
  split; [reflexivity|]. split; [reflexivity|]. split.
  - apply Forall_forall. intros t Ht.
    apply contains_app_l, contains_app_r, contains_concat, Ht.
  - apply occur_in_order_app_l, occur_in_order_concat.
Qed.

Lemma convertErrorCodes_known_codes_witness :
  ["missing-input-response"; "bad-request"] <> [] /\
  Forall (fun c => is_Some (responseErrors !! c))
    ["missing-input-response"; "bad-request"] /\
  exists (texts : list string) (err : error),
    Forall2 (fun c t => responseErrors !! c = Some t)
      ["missing-input-response"; "bad-request"] texts /\
    snd (convertErrorCodes ["missing-input-response"; "bad-request"]) = Some err /\
    Error err = "reCAPTCHA request errors: [" +:+ String.concat " " texts +:+ "]" /\
    Forall (fun t => contains t (Error err)) texts /\
    occur_in_order texts (Error err).
Proof.
  assert (Hk : Forall (fun c => is_Some (responseErrors !! c))
                 ["missing-input-response"; "bad-request"]).
  { repeat constructor; rewrite responseErrors_lookup; vm_compute; eauto. }
  split; [discriminate|]. split; [exact Hk|].
  apply (convertErrorCodes_known_codes ["missing-input-response"; "bad-request"]);
    [discriminate|exact Hk].
Defined.

(** C4. When the list holds a code that is not a key of the table, an error
    is returned and its message contains "unknown error code " followed by
    that code; and no code is dropped: the message contains the translation
    of every code of the list. *)
Theorem convertErrorCodes_unknown_code (codes : list string) (c : string) :
  c ∈ codes ->
  responseErrors !! c = None ->
  exists err : error,
    snd (convertErrorCodes codes) = Some err /\
    contains ("unknown error code " +:+ c) (Error err) /\
    Forall (fun e => contains (translate e) (Error err)) codes.
Proof.
  intros Hin Hc.
  assert (Hne : codes <> []) by (intros ->; inversion Hin).
  exists (fmt.Errorf_request_errors (translate <$> codes)).
  rewrite convertErrorCodes_nonempty by exact Hne.
  rewrite request_errors_message.
  assert (Hall : forall e, e ∈ codes ->
            contains (translate e)
              ("reCAPTCHA request errors: [" +:+
               String.concat " " (translate <$> codes) +:+ "]")).
  { intros e He. apply contains_app_l, contains_app_r, contains_concat.
    apply list_elem_of_fmap. exists e. split; [reflexivity|exact He]. }
  split; [reflexivity|]. split.
  - specialize (Hall c Hin). unfold translate in Hall. rewrite Hc in Hall.
    exact Hall.
  - apply Forall_forall. exact Hall.
Qed.

Lemma convertErrorCodes_unknown_code_witness :
  "xyz" ∈ ["bad-request"; "xyz"] /\
  responseErrors !! "xyz" = None /\
  exists err : error,
    snd (convertErrorCodes ["bad-request"; "xyz"]) = Some err /\
    contains ("unknown error code " +:+ "xyz") (Error err) /\
    Forall (fun e => contains (translate e) (Error err)) ["bad-request"; "xyz"].
Proof.
  assert (Hin : "xyz" ∈ ["bad-request"; "xyz"]) by (right; left).
  assert (Hc : responseErrors !! "xyz" = None) by (vm_compute; reflexivity).
  split; [exact Hin|]. split; [exact Hc|].
  exact (convertErrorCodes_unknown_code ["bad-request"; "xyz"] "xyz" Hin Hc).
Defined.

(** C10. [convertErrorCodes] is not idempotent on its argument.  On the
    list ["bad-request"] the first call leaves the descriptive text in the
    list, and a second call on that list reports the text as an unknown
    code.  More generally a second call on any non-empty list re-reports
    every entry the first call wrote as "unknown error code ...", and its
    error differs from the first one. *)
Theorem convertErrorCodes_not_idempotent :
  (convertErrorCodes ["bad-request"] =
     (["the request is invalid or malformed"],
      Some (errorString
        "reCAPTCHA request errors: [the request is invalid or malformed]")) /\
   convertErrorCodes (fst (convertErrorCodes ["bad-request"])) =
     (["unknown error code the request is invalid or malformed"],
      Some (errorString
        "reCAPTCHA request errors: [unknown error code the request is invalid or malformed]"))) /\
  (forall (c : string) (codes : list string),
     let first := convertErrorCodes (c :: codes) in
     let second := convertErrorCodes (fst first) in
     fst second = fmt.Sprintf_unknown_error_code <$> fst first /\
     snd second =
       Some (fmt.Errorf_request_errors
               (fmt.Sprintf_unknown_error_code <$> fst first)) /\
     snd second <> snd first).
Proof.
  split; [split; vm_compute; reflexivity|].
  intros c codes first second. subst first second.
  rewrite convertErrorCodes_cons. cbn [fst snd].
  set (l1 := translate <$> c :: codes).
  assert (Hl1 : l1 <> []) by discriminate.
  assert (H2 : translate <$> l1 = fmt.Sprintf_unknown_error_code <$> l1).
  { subst l1. rewrite <- !list_fmap_compose. apply list_fmap_ext.
    intros i e _. apply translate_translate. }
  rewrite convertErrorCodes_nonempty by exact Hl1. cbn [fst snd].
  rewrite H2. split; [reflexivity|]. split; [reflexivity|].
  intros Heq. apply request_errors_length in Heq.
  pose proof (length_concat_fmap_unknown l1 Hl1). lia.
Qed.

(** ** The verifier's round trip *)


Lemma check_fails (env : Env) (remoteip response : string) (st : State)
    (prefix : string) (cause : error) :
  round_trip_fails env remoteip response st prefix cause ->
  exists r : recaptchaResponse,
    check env remoteip response st =
    (r, Some (fmt.Errorf_w prefix cause), after_check remoteip response st).
Proof.
  unfold check, ioutil_ReadAll.
  intros [cause' Hpost|resp cause' Hpost Hread|resp r' cause' Hpost Hread Hjson];
    rewrite Hpost; [eexists; reflexivity| |]; rewrite Hread;
    [eexists; reflexivity|].
  rewrite Hjson. eexists; reflexivity.
Qed.

(** Every error of [check] comes from one of the three failures. *)
Lemma check_error_inv (env : Env) (remoteip response : string) (st st' : State)
    (r : recaptchaResponse) (err : error) :
  check env remoteip response st = (r, Some err, st') ->
  exists (prefix : string) (cause : error),
    round_trip_fails env remoteip response st prefix cause /\
    err = fmt.Errorf_w prefix cause.
Proof.
  unfold check, ioutil_ReadAll.
  destruct (http_PostForm env _ _ _) as [resp|cause] eqn:Hpost.
  - destruct (body_err (Body resp)) as [cause|] eqn:Hread.
    + intros [= _ <- _]. eauto using read_fails.
    + destruct (json_Unmarshal env _ _) as [r' [cause|]] eqn:Hjson.
      * intros [= _ <- _]. eauto using decode_fails.
      * discriminate.
  - intros [= _ <- _]. eauto using post_fails.
Qed.

(** ** Properties of the entry points *)

(** C1. When the round trip succeeds and the response lists at least one
    error code, [Confirm] returns the response's [Success] field, whatever
    it is, together with the aggregate error made of the translated codes;
    so [true] and a non-nil error are returned together when [Success] is
    [true]. *)
Theorem Confirm_reports_error_codes (env : Env) (remoteip response : string)
    (st st' : State) (resp : recaptchaResponse) :
  check env remoteip response st = (resp, None, st') ->
  ErrorCodes resp <> [] ->
  exists err : error,
    Confirm env remoteip response st = (Success resp, Some err, st') /\
    err = fmt.Errorf_request_errors (translate <$> ErrorCodes resp).
Proof.
  intros Hcheck Hcodes. unfold Confirm. rewrite Hcheck.
  rewrite convertErrorCodes_nonempty by exact Hcodes.
  eexists. split; reflexivity.
Qed.

Lemma Confirm_reports_error_codes_witness :
  check provider_true_with_code remoteip token st0 =
    (resp_true_with_code, None, st1) /\
  ErrorCodes resp_true_with_code <> [] /\
  exists err : error,
    Confirm provider_true_with_code remoteip token st0 =
      (true, Some err, st1) /\
    err = fmt.Errorf_request_errors
            (translate <$> ErrorCodes resp_true_with_code).
Proof.
  assert (Hcheck : check provider_true_with_code remoteip token st0 =
                   (resp_true_with_code, None, st1)) by reflexivity.
  assert (Hcodes : ErrorCodes resp_true_with_code <> []) by discriminate.
  split; [exact Hcheck|]. split; [exact Hcodes|].
  exact (Confirm_reports_error_codes provider_true_with_code remoteip token
           st0 st1 resp_true_with_code Hcheck Hcodes).
Defined.

(** C5. When the round trip fails (the POST, the reading of the body or the
    JSON decoding), [check] returns an error that wraps the cause, and
    [Confirm] and [ConfirmV3] return that same error with the zero values
    [false], [0.0] and the empty string, whatever the decoder left in the
    response; exactly one request was sent. *)
Theorem round_trip_failure_propagates (env : Env) (remoteip response : string)
    (st : State) (prefix : string) (cause : error) :
  round_trip_fails env remoteip response st prefix cause ->
  exists (r : recaptchaResponse) (err : error),
    check env remoteip response st =
      (r, Some err, after_check remoteip response st) /\
    Unwrap err = Some cause /\
    Error err = prefix +:+ Error cause /\
    Confirm env remoteip response st =
      (false, Some err, after_check remoteip response st) /\
    ConfirmV3 env remoteip response st =
      (false, 0%float, EmptyString, Some err, after_check remoteip response st) /\
    posted (after_check remoteip response st) =
      posted st ++ [(recaptchaServerName, check_form remoteip response st)].
Proof.
  intros Hfail. destruct (check_fails _ _ _ _ _ _ Hfail) as [r Hcheck].
  exists r, (fmt.Errorf_w prefix cause).
  unfold Confirm, ConfirmV3. rewrite Hcheck. repeat split.
Qed.

Lemma round_trip_failure_propagates_witness :
  round_trip_fails network_down remoteip token st0
    "post error: " connection_refused /\
  exists (r : recaptchaResponse) (err : error),
    check network_down remoteip token st0 = (r, Some err, st1) /\
    Unwrap err = Some connection_refused /\
    Error err = "post error: " +:+ Error connection_refused /\
    Confirm network_down remoteip token st0 =
      (false, Some err, st1) /\
    ConfirmV3 network_down remoteip token st0 =
      (false, 0%float, EmptyString, Some err, st1) /\
    posted st1 =
      posted st0 ++
      [(recaptchaServerName,
        check_form remoteip token st0)].
Proof.
  assert (Hfail : round_trip_fails network_down remoteip token
                    st0 "post error: " connection_refused)
    by (apply post_fails; reflexivity).
  split; [exact Hfail|].
  exact (round_trip_failure_propagates network_down remoteip token
           st0 "post error: " connection_refused Hfail).
Defined.

(** C7. When the decoded response has [Success] true and no error codes,
    [Confirm] returns [(true, nil)]. *)
Theorem Confirm_success (env : Env) (remoteip response : string)
    (st st' : State) (resp : recaptchaResponse) :
  check env remoteip response st = (resp, None, st') ->
  Success resp = true ->
  ErrorCodes resp = [] ->
  Confirm env remoteip response st = (true, None, st').
Proof.
  intros Hcheck Hsuccess Hcodes. unfold Confirm.
  rewrite Hcheck, Hsuccess, Hcodes. reflexivity.
Qed.

Lemma Confirm_success_witness :
  check provider_true remoteip token st0 =
    (resp_true, None, st1) /\
  Success resp_true = true /\
  ErrorCodes resp_true = [] /\
  Confirm provider_true remoteip token st0 = (true, None, st1).
Proof.
  assert (Hcheck : check provider_true remoteip token st0 =
                   (resp_true, None, st1)) by reflexivity.
  split; [exact Hcheck|]. split; [reflexivity|]. split; [reflexivity|].
  exact (Confirm_success provider_true remoteip token st0 st1
           resp_true Hcheck eq_refl eq_refl).
Defined.

(** C8. When the round trip succeeds, [ConfirmV3] returns the [Score] and
    [Action] fields of the decoded response as they are, next to [Success]
    and the translated error; for a response with [Success] true, score
    0.9, action "login" and no error codes it returns
    [(true, 0.9, "login", nil)]. *)
Theorem ConfirmV3_score_action (env : Env) (remoteip response : string)
    (st st' : State) (resp : recaptchaResponse) :
  check env remoteip response st = (resp, None, st') ->
  ConfirmV3 env remoteip response st =
    (Success resp, Score resp, Action resp,
     snd (convertErrorCodes (ErrorCodes resp)), st') /\
  (Success resp = true -> Score resp = float64_0_9 ->
   Action resp = "login" -> ErrorCodes resp = [] ->
   ConfirmV3 env remoteip response st =
     (true, float64_0_9, "login", None, st')).
Proof.
  intros Hcheck. unfold ConfirmV3. rewrite Hcheck. split; [reflexivity|].
  intros -> -> -> ->. reflexivity.
Qed.

Lemma ConfirmV3_score_action_witness :
  check provider_login remoteip token st0 =
    (resp_login, None, st1) /\
  ConfirmV3 provider_login remoteip token st0 =
    (true, float64_0_9, "login", None, st1).
Proof.
  assert (Hcheck : check provider_login remoteip token st0 =
                   (resp_login, None, st1)) by reflexivity.
  split; [exact Hcheck|].
  exact (proj2 (ConfirmV3_score_action provider_login remoteip token
                  st0 st1 resp_login Hcheck)
           eq_refl eq_refl eq_refl eq_refl).
Defined.

(** C9. [Confirm] and [ConfirmV3] agree: run from the same state against
    the same environment, [Confirm] returns the boolean and the error that
    [ConfirmV3] returns, and leaves the same state. *)
Theorem Confirm_agrees_with_ConfirmV3 (env : Env) (remoteip response : string)
    (st : State) :
  Confirm env remoteip response st =
  (let '(success, _, _, err, st') := ConfirmV3 env remoteip response st in
   (success, err, st')).
Proof.
  unfold Confirm, ConfirmV3.
  destruct (check env remoteip response st) as [[resp [err|]] st']; reflexivity.
Qed.

(** ** Further properties of the error translator *)

Lemma convert_loop_prefix (k : nat) (rest done : list string) :
  k <= length rest ->
  convert_loop k (length done) (done ++ rest) =
  done ++ (translate <$> take k rest) ++ drop k rest.
Proof.
  revert rest done. induction k as [|k IH]; intros rest done Hk.
  - rewrite take_0, drop_0. reflexivity.
  - destruct rest as [|e rest]; [simpl in Hk; lia|].
    simpl in Hk. simpl convert_loop.
    rewrite list_lookup_middle by reflexivity.
    rewrite convert_at_translate.
    rewrite insert_app_r_alt, Nat.sub_diag by reflexivity. simpl.
    rewrite (cons_middle (translate e)), app_assoc.
    replace (S (length done)) with (length (done ++ [translate e]))
      by (rewrite length_app; simpl; lia).
    rewrite IH by lia. rewrite <- app_assoc. reflexivity.
Qed.

(** X1. The invariant of the loop of [convertErrorCodes]: after [k]
    iterations, with [k] within the length of the list, the first [k]
    entries hold the translations of the codes that were there and the
    entries from [k] on are untouched; the length never changes, so every
    index the loop reads or writes is in range. *)
Theorem convert_loop_invariant (k : nat) (l : list string) :
  k <= length l ->
  convert_loop k 0 l = (translate <$> take k l) ++ drop k l /\
  length (convert_loop k 0 l) = length l /\
  (forall i : nat, k <= i -> convert_loop k 0 l !! i = l !! i) /\
  (forall i : nat, i < k -> is_Some (convert_loop k 0 l !! i)).
Proof.
  intros Hk.
  assert (Heq : convert_loop k 0 l = (translate <$> take k l) ++ drop k l)
    by exact (convert_loop_prefix k l [] Hk).
  assert (Hlen : length (translate <$> take k l) = k)
    by (rewrite length_fmap, length_take; lia).
  rewrite Heq. split; [reflexivity|]. split; [|split].
  - rewrite length_app, Hlen, length_drop. lia.
  - intros i Hi. rewrite lookup_app_r by lia.
    rewrite Hlen, lookup_drop. f_equal. lia.
  - intros i Hi. apply lookup_lt_is_Some.
    rewrite length_app, Hlen. lia.
Qed.

Lemma convert_loop_invariant_witness :
  1 <= length ["bad-request"; "xyz"; "timeout-or-duplicate"] /\
  convert_loop 1 0 ["bad-request"; "xyz"; "timeout-or-duplicate"] =
    ["the request is invalid or malformed"; "xyz"; "timeout-or-duplicate"].
Proof.
  assert (Hk : 1 <= length ["bad-request"; "xyz"; "timeout-or-duplicate"])
    by (simpl; lia).
  split; [exact Hk|].
  rewrite (proj1 (convert_loop_invariant 1
                    ["bad-request"; "xyz"; "timeout-or-duplicate"] Hk)).
  vm_compute. reflexivity.
Defined.

(** X2. For every non-empty list of codes, known and unknown ones mixed,
    the message of the returned error is the fixed prefix, an opening
    bracket, the translations of the codes separated by single spaces and a
    closing bracket; the translations occur in the message in the order of
    the codes, and the error wraps no other error. *)
Theorem convertErrorCodes_message (c : string) (codes : list string) :
  exists err : error,
    snd (convertErrorCodes (c :: codes)) = Some err /\
    Error err =
      "reCAPTCHA request errors: [" +:+
      String.concat " " (translate <$> c :: codes) +:+ "]" /\
    occur_in_order (translate <$> c :: codes) (Error err) /\
    Unwrap err = None.
Proof.
  rewrite convertErrorCodes_cons. eexists. split; [reflexivity|].
  rewrite request_errors_message. split; [reflexivity|]. split; [|reflexivity].
  apply occur_in_order_app_l, occur_in_order_concat.
Qed.

Lemma text_not_unknown (e code e' : string) :
  responseErrors !! e = Some code -> code <> fmt.Sprintf_unknown_error_code e'.
Proof.
  intros H.
  change (fmt.Sprintf_unknown_error_code e')
    with (String "u" ("nknown error code " +:+ e')).
  table_cases H; discriminate.
Qed.

Lemma table_texts_distinct (e1 e2 code : string) :
  responseErrors !! e1 = Some code -> responseErrors !! e2 = Some code -> e1 = e2.
Proof.
  intros H1 H2. table_cases H1; rewrite responseErrors_lookup in H2;
    repeat (case_decide; [subst; try reflexivity; discriminate H2|]);
    discriminate H2.
Qed.

Lemma translate_inj (e1 e2 : string) : translate e1 = translate e2 -> e1 = e2.
Proof.
  unfold translate.
  destruct (responseErrors !! e1) as [c1|] eqn:H1;
    destruct (responseErrors !! e2) as [c2|] eqn:H2; intros Heq.
  - subst c2. eapply table_texts_distinct; eassumption.
  - destruct (text_not_unknown _ _ e2 H1 Heq).
  - symmetry in Heq. destruct (text_not_unknown _ _ e1 H2 Heq).
  - unfold fmt.Sprintf_unknown_error_code in Heq.
    eapply String.app_inj, Heq.
Qed.

(** X3. The rewriting of the list loses nothing: two different lists of
    codes are never rewritten to the same list, because the texts of the
    table are pairwise different and none of them starts like the
    synthetic message of an unknown code. *)
Theorem convertErrorCodes_list_injective (codes1 codes2 : list string) :
  codes1 <> codes2 ->
  fst (convertErrorCodes codes1) <> fst (convertErrorCodes codes2).
Proof.
  intros Hne Heq. apply Hne.
  assert (Hfst : forall l, fst (convertErrorCodes l) = translate <$> l).
  { intros [|e l]; [reflexivity|]. rewrite convertErrorCodes_cons. reflexivity. }
  rewrite !Hfst in Heq. clear Hne Hfst.
  revert codes2 Heq. induction codes1 as [|e1 l1 IH]; intros [|e2 l2] Heq;
    rewrite ?fmap_cons, ?fmap_nil in Heq; try discriminate Heq;
    [reflexivity|].
  injection Heq as He Hl.
  f_equal; [apply translate_inj, He|apply IH, Hl].
Qed.

Lemma convertErrorCodes_list_injective_witness :
  ["bad-request"] <> ["bad-requests"] /\
  fst (convertErrorCodes ["bad-request"]) <>
  fst (convertErrorCodes ["bad-requests"]).
Proof.
  assert (Hne : ["bad-request"] <> ["bad-requests"]) by discriminate.
  split; [exact Hne|].
  exact (convertErrorCodes_list_injective ["bad-request"] ["bad-requests"] Hne).
Defined.

Lemma list_ascii_of_string_app (s t : string) :
  list_ascii_of_string (s +:+ t) =
  list_ascii_of_string s ++ list_ascii_of_string t.
Proof.
  induction s as [|a s IH]; [reflexivity|].
  rewrite app_cons. simpl. rewrite IH. reflexivity.
Qed.

(** No code of the table contains a space. *)
Lemma key_without_space (e code : string) :
  responseErrors !! e = Some code -> " "%char ∉ list_ascii_of_string e.
Proof.
  intros H.
  table_cases H; intros Hin; apply list_elem_of_In in Hin; simpl in Hin;
    repeat (destruct Hin as [Hin|Hin]; [discriminate Hin|]); exact Hin.
Qed.

Lemma spaced_not_key (x z : string) :
  responseErrors !! (x +:+ String " " z) = None.
Proof.
  apply eq_None_not_Some. intros [code H].
  apply key_without_space in H. apply H.
  rewrite list_ascii_of_string_app. apply elem_of_app. right. left.
Qed.

(** X4. The message of the aggregate error does not determine the codes:
    for unknown codes [x] and [y], the one-element list holding
    [x ++ " unknown error code " ++ y] and the two-element list [x; y] are
    different lists with the same returned error, since [%v] separates the
    entries by the space that the entries themselves may contain. *)
Theorem convertErrorCodes_message_ambiguous (x y : string) :
  responseErrors !! x = None ->
  responseErrors !! y = None ->
  [x +:+ " unknown error code " +:+ y] <> [x; y] /\
  snd (convertErrorCodes [x +:+ " unknown error code " +:+ y]) =
  snd (convertErrorCodes [x; y]).
Proof.
  intros Hx Hy. split; [discriminate|].
  rewrite !convertErrorCodes_cons. cbn [snd].
  unfold fmt.Errorf_request_errors, fmt.v_strings.
  enough (Hc : String.concat " "
                 (translate <$> [x +:+ " unknown error code " +:+ y]) =
               String.concat " " (translate <$> [x; y]))
    by (rewrite Hc; reflexivity).
  rewrite !fmap_cons, !fmap_nil. unfold translate at 2 3. rewrite Hx, Hy.
  unfold translate.
  change (" unknown error code " +:+ y)
    with (String " " ("unknown error code " +:+ y)).
  rewrite spaced_not_key.
  unfold fmt.Sprintf_unknown_error_code. rewrite concat_cons2.
  change (String.concat " " ["unknown error code " +:+ y])
    with ("unknown error code " +:+ y).
  change (String.concat " "
            ["unknown error code " +:+
             x +:+ String " " ("unknown error code " +:+ y)])
    with ("unknown error code " +:+
          x +:+ String " " ("unknown error code " +:+ y)).
  rewrite !app_assoc_s. reflexivity.
Qed.

Lemma convertErrorCodes_message_ambiguous_witness :
  responseErrors !! "a" = None /\
  responseErrors !! "b" = None /\
  ["a" +:+ " unknown error code " +:+ "b"] <> ["a"; "b"] /\
  snd (convertErrorCodes ["a" +:+ " unknown error code " +:+ "b"]) =
  snd (convertErrorCodes ["a"; "b"]).
Proof.
  assert (Ha : responseErrors !! "a" = None) by (vm_compute; reflexivity).
  assert (Hb : responseErrors !! "b" = None) by (vm_compute; reflexivity).
  split; [exact Ha|]. split; [exact Hb|].
  exact (convertErrorCodes_message_ambiguous "a" "b" Ha Hb).
Defined.

(** ** Further properties of the verifier *)





(** X7. The outcomes of [check].  It returns no error exactly when the
    POST, the reading of the body and the decoding all succeed, and it then
    returns what the decoder made of the zero response; every error it
    returns is the cause of one of the three failures, wrapped under that
    failure's prefix. *)
Theorem check_outcome (env : Env) (remoteip response : string) (st : State) :
  match check env remoteip response st with
  | (r, None, _) =>
      exists resp : http_Response,
        http_PostForm env (posted st) recaptchaServerName
          (check_form remoteip response st) = inl resp /\
        body_err (Body resp) = None /\
        json_Unmarshal env (body_data (Body resp)) zero_recaptchaResponse =
          (r, None)
  | (_, Some err, _) =>
      exists (prefix : string) (cause : error),
        round_trip_fails env remoteip response st prefix cause /\
        err = wrapError (prefix +:+ Error cause) cause
  end.
Proof.
  unfold check, ioutil_ReadAll.
  destruct (http_PostForm env _ _ _) as [resp|cause] eqn:Hpost.
  - destruct (body_err (Body resp)) as [cause|] eqn:Hread.
    + eauto using read_fails.
    + destruct (json_Unmarshal env _ _) as [r' [cause|]] eqn:Hjson.
      * eauto using decode_fails.
      * eauto.
  - eauto using post_fails.
Qed.

(** X8. [Confirm] and [ConfirmV3] never report [true] for a round trip
    that failed: a [true] comes from a decoded response whose [Success]
    field is [true], and the other results are then that response's. *)
Theorem true_only_if_verified (env : Env) (remoteip response : string)
    (st : State) :
  (forall (e : option error) (st' : State),
     Confirm env remoteip response st = (true, e, st') ->
     exists resp : recaptchaResponse,
       check env remoteip response st = (resp, None, st') /\
       Success resp = true /\
       e = snd (convertErrorCodes (ErrorCodes resp))) /\
  (forall (score : float) (action : string) (e : option error) (st' : State),
     ConfirmV3 env remoteip response st = (true, score, action, e, st') ->
     exists resp : recaptchaResponse,
       check env remoteip response st = (resp, None, st') /\
       Success resp = true /\ score = Score resp /\ action = Action resp /\
       e = snd (convertErrorCodes (ErrorCodes resp))).
Proof.
  unfold Confirm, ConfirmV3.
  destruct (check env remoteip response st) as [[resp [err|]] st0'].
  - split; intros; discriminate.
  - split.
    + intros e st' [= Hs <- <-]. eauto.
    + intros score action e st' [= Hs <- <- <- <-]. eauto 10.
Qed.

Lemma true_only_if_verified_witness :
  Confirm provider_true_with_code remoteip token st0 =
    (true, snd (convertErrorCodes ["timeout-or-duplicate"]), st1) /\
  ConfirmV3 provider_login remoteip token st0 =
    (true, float64_0_9, "login", None, st1) /\
  (exists resp : recaptchaResponse,
     check provider_true_with_code remoteip token st0 = (resp, None, st1) /\
     Success resp = true /\
     snd (convertErrorCodes ["timeout-or-duplicate"]) =
       snd (convertErrorCodes (ErrorCodes resp))) /\
  (exists resp : recaptchaResponse,
     check provider_login remoteip token st0 = (resp, None, st1) /\
     Success resp = true /\ float64_0_9 = Score resp /\
     "login" = Action resp /\
     None = snd (convertErrorCodes (ErrorCodes resp))).
Proof.
  assert (H2 : Confirm provider_true_with_code remoteip token st0 =
                 (true, snd (convertErrorCodes ["timeout-or-duplicate"]), st1))
    by reflexivity.
  assert (H3 : ConfirmV3 provider_login remoteip token st0 =
                 (true, float64_0_9, "login", None, st1)) by reflexivity.
  split; [exact H2|]. split; [exact H3|]. split.
  - exact (proj1 (true_only_if_verified provider_true_with_code remoteip
                    token st0) _ _ H2).
  - exact (proj2 (true_only_if_verified provider_login remoteip token st0)
             _ _ _ _ H3).
Defined.

(** X9. [Confirm] returns a nil error exactly when the round trip
    succeeded and the decoded response lists no error code, whatever its
    [Success] field is. *)
Theorem Confirm_nil_error_iff (env : Env) (remoteip response : string)
    (st : State) :
  snd (fst (Confirm env remoteip response st)) = None <->
  exists (resp : recaptchaResponse) (st' : State),
    check env remoteip response st = (resp, None, st') /\
    ErrorCodes resp = [].
Proof.
  unfold Confirm.
  destruct (check env remoteip response st) as [[resp [err|]] st'];
    cbn [fst snd].
  - split; [discriminate|]. intros (resp' & st'' & [=] & _).
  - destruct (ErrorCodes resp) as [|c codes] eqn:Hcodes.
    + split; [|reflexivity]. intros _. exists resp, st'.
      split; [reflexivity|exact Hcodes].
    + rewrite convertErrorCodes_cons. split; [discriminate|].
      intros (resp' & st'' & [= <- _] & Hnil). congruence.
Qed.

(** X10. The two kinds of error [Confirm] returns can be told apart with
    [errors.Unwrap].  A non-nil error is either the error of a failed
    round trip, which wraps its cause and comes with [false], or the
    aggregate of the provider's codes, which wraps nothing and comes with
    the response's [Success] field. *)
Theorem Confirm_error_kinds (env : Env) (remoteip response : string)
    (st st' : State) (b : bool) (err : error) :
  Confirm env remoteip response st = (b, Some err, st') ->
  (exists (r : recaptchaResponse) (prefix : string) (cause : error),
     check env remoteip response st = (r, Some err, st') /\
     round_trip_fails env remoteip response st prefix cause /\
     Unwrap err = Some cause /\ b = false) \/
  (exists resp : recaptchaResponse,
     check env remoteip response st = (resp, None, st') /\
     ErrorCodes resp <> [] /\
     err = fmt.Errorf_request_errors (translate <$> ErrorCodes resp) /\
     Unwrap err = None /\ b = Success resp).
Proof.
  unfold Confirm.
  destruct (check env remoteip response st) as [[resp [err'|]] st0'] eqn:Hcheck.
  - intros [= <- <- <-]. left.
    destruct (check_error_inv _ _ _ _ _ _ _ Hcheck) as (prefix & cause & Hf & ->).
    exists resp, prefix, cause. repeat split. exact Hf.
  - destruct (ErrorCodes resp) as [|c codes] eqn:Hcodes; [discriminate|].
    rewrite convertErrorCodes_cons. intros [= <- <- <-]. right.
    exists resp. rewrite Hcodes. repeat split. discriminate.
Qed.

Lemma Confirm_error_kinds_witness :
  Confirm network_down remoteip token st0 =
    (false, Some (fmt.Errorf_w "post error: " connection_refused), st1) /\
  ((exists (r : recaptchaResponse) (prefix : string) (cause : error),
      check network_down remoteip token st0 =
        (r, Some (fmt.Errorf_w "post error: " connection_refused), st1) /\
      round_trip_fails network_down remoteip token st0 prefix cause /\
      Unwrap (fmt.Errorf_w "post error: " connection_refused) = Some cause /\
      false = false) \/
   (exists resp : recaptchaResponse,
      check network_down remoteip token st0 = (resp, None, st1) /\
      ErrorCodes resp <> [] /\
      fmt.Errorf_w "post error: " connection_refused =
        fmt.Errorf_request_errors (translate <$> ErrorCodes resp) /\
      Unwrap (fmt.Errorf_w "post error: " connection_refused) = None /\
      false = Success resp)).
Proof.
  assert (H : Confirm network_down remoteip token st0 =
    (false, Some (fmt.Errorf_w "post error: " connection_refused), st1))
    by reflexivity.
  split; [exact H|].
  exact (Confirm_error_kinds network_down remoteip token st0 st1 false
           (fmt.Errorf_w "post error: " connection_refused) H).
Defined.
